(** * dspace-angular: browse service and browse-by-taxonomy page

  A shallow embedding of [src/app/core/browse/browse.service.ts] and of the
  selection state of the browse-by-taxonomy page, with the properties the
  specification states about them.

  JavaScript values are modelled as follows: a [string] is a Rocq
  [string]; a value that may be [undefined] is an [option] ([None] is
  [undefined]); an array is a [list]; an object used as a dictionary
  ([_links]) is a [gmap string _]; page numbers are safe integers. *)

From Stdlib Require Import Ascii.
From stdpp Require Import base strings list gmap pretty.

(** ** JavaScript built-ins used by the sources *)

Module Js.

(** [String.prototype.split] with a one-character separator: the result
    always has one more part than the string has separators. *)
Fixpoint split (sep : Ascii.ascii) (s : string) : list string :=
  match s with
  | EmptyString => [EmptyString]
  | String c s' =>
      if Ascii.eqb c sep then EmptyString :: split sep s'
      else match split sep s' with
           | [] => [String c EmptyString]
           | part :: parts => String c part :: parts
           end
  end.

(** [Array.prototype.join] on an array of strings. *)
Definition join (sep : string) (parts : list string) : string :=
  String.concat sep parts.

(** [Array.prototype.slice(0, n)]. *)
Definition slice0 {A} (n : nat) (l : list A) : list A := take n l.

(** [Array.prototype.indexOf]: the first index of [x], or [-1]. *)
Fixpoint indexOf (l : list string) (x : string) : Z :=
  match l with
  | [] => (-1)%Z
  | y :: l' =>
      if String.eqb y x then 0%Z
      else let r := indexOf l' x in
           if (r <? 0)%Z then (-1)%Z else (r + 1)%Z
  end.

(** [Array.prototype.find]: the first element satisfying the callback,
    [undefined] when there is none. *)
Definition find {A} (p : A → bool) (l : list A) : option A := List.find p l.

(** What a template literal [`${x}`] prints for a value [x]. *)
Class Tpl (A : Type) := tpl : A → string.
Global Hint Mode Tpl ! : typeclass_instances.

#[global] Instance tpl_string : Tpl string := λ s, s.
#[global] Instance tpl_Z : Tpl Z := λ z, pretty z.
#[global] Instance tpl_option `{Tpl A} : Tpl (option A) :=
  λ o, match o with None => "undefined" | Some a => tpl a end.

(** An error thrown by the code: [throw new Error(msg)], or the
    [TypeError] of reading a property of [undefined]. *)
Inductive Thrown :=
| Error (msg : string)
| TypeError.

#[global] Instance Thrown_eq_dec : EqDecision Thrown.
Proof. solve_decision. Defined.

End Js.

(** ** [shared/empty.util] *)

Module EmptyUtil.

(** Modelled from the spec: [hasValue], [isEmpty] and [isNotEmpty] of
    [shared/empty.util], which is not among the sources.  The spec speaks
    of options being "non-empty"; a value has a value when it is not
    [undefined], and is empty when it is [undefined] or is a string or an
    array of length zero.  Any other object is not empty. *)
Class Emptiness (A : Type) := isEmpty : A → bool.
Global Hint Mode Emptiness ! : typeclass_instances.

Definition isNotEmpty `{Emptiness A} (a : A) : bool := negb (isEmpty a).

Definition hasValue {A} (o : option A) : bool :=
  match o with Some _ => true | None => false end.

#[global] Instance empty_string : Emptiness string :=
  λ s, Nat.eqb (String.length s) 0.
#[global] Instance empty_array {A} : Emptiness (list A) :=
  λ l, Nat.eqb (length l) 0.
#[global] Instance empty_option `{Emptiness A} : Emptiness (option A) :=
  λ o, match o with None => true | Some a => isEmpty a end.

End EmptyUtil.

Import Js EmptyUtil.

(** ** Reactive streams

    An observable is modelled by what a subscriber has received from it:
    the values emitted so far, in order, and how the stream ended. *)

Module Rx.

Inductive Ending :=
| Completed
| Errored (e : Thrown)
| Pending.

#[global] Instance Ending_eq_dec : EqDecision Ending.
Proof. solve_decision. Defined.

Record Observable (A : Type) := mkObservable {
  emitted : list A;
  ending : Ending
}.
Arguments mkObservable {A} _ _.
Arguments emitted {A} _.
Arguments ending {A} _.

(** [of(x)]. *)
Definition observableOf {A} (x : A) : Observable A := mkObservable [x] Completed.

(** [map(f)] for a callback that cannot throw. *)
Definition map {A B} (f : A → B) (o : Observable A) : Observable B :=
  mkObservable (f <$> emitted o) (ending o).

(** [map(f)] for a callback that may throw: the first exception ends the
    stream with an error notification and nothing is emitted after it. *)
Fixpoint tryMap_go {A B} (f : A → Thrown + B) (l : list A) (e : Ending)
  : list B * Ending :=
  match l with
  | [] => ([], e)
  | a :: l' =>
      match f a with
      | inl err => ([], Errored err)
      | inr b => let r := tryMap_go f l' e in (b :: r.1, r.2)
      end
  end.

Definition tryMap {A B} (f : A → Thrown + B) (o : Observable A) : Observable B :=
  let r := tryMap_go f (emitted o) (ending o) in mkObservable r.1 r.2.

(** [hasValueOperator()]: [filter(hasValue)]. *)
Definition hasValueOperator {A} (o : Observable (option A)) : Observable A :=
  mkObservable (omap (λ x, x) (emitted o)) (ending o).

(** [startWith(x)]. *)
Definition startWith {A} (x : A) (o : Observable A) : Observable A :=
  mkObservable (x :: emitted o) (ending o).

(** [distinctUntilChanged()]: a value equal to the one emitted just before
    it is dropped. *)
Fixpoint distinct_go `{EqDecision A} (prev : A) (l : list A) : list A :=
  match l with
  | [] => []
  | a :: l' => if decide (a = prev) then distinct_go prev l'
               else a :: distinct_go a l'
  end.

Definition distinctUntilChanged `{EqDecision A} (o : Observable A)
  : Observable A :=
  match emitted o with
  | [] => o
  | a :: l => mkObservable (a :: distinct_go a l) (ending o)
  end.

End Rx.

Import Rx.

(** ** The data model of the browse service *)

Module Model.

(** A browse definition: its metadata keys and its [_links] object. *)
Record BrowseDefinition := mkBrowseDefinition {
  metadataKeys : list string;
  _links : option (gmap string string)
}.

#[global] Instance BrowseDefinition_eq_dec : EqDecision BrowseDefinition.
Proof. solve_decision. Defined.

(** Objects are never empty for [isEmpty]. *)
#[global] Instance empty_BrowseDefinition : Emptiness BrowseDefinition := λ _, false.
#[global] Instance empty_links : Emptiness (gmap string string) := λ _, false.

Inductive SortDirection := ASC | DESC.

#[global] Instance tpl_SortDirection : Tpl SortDirection :=
  λ d, match d with ASC => "ASC" | DESC => "DESC" end.

Record SortOptions := mkSortOptions {
  field : string;
  direction : SortDirection
}.

(** The page number and the page size are JavaScript numbers.  The model
    takes them among the safe integers ([Number.isSafeInteger]): on these the
    subtraction [currentPage - 1] is exact and a template literal prints the
    decimal digits, as on [Z]. *)
Record SafeInteger := mkSafeInteger {
  integer : Z;
  integer_safe : bool_decide (- (2 ^ 53 - 1) ≤ integer ≤ 2 ^ 53 - 1)%Z = true
}.

#[global] Instance tpl_SafeInteger : Tpl SafeInteger := λ n, tpl (integer n).

Record PaginationComponentOptions := mkPagination {
  currentPage : SafeInteger;
  pageSize : SafeInteger
}.

#[global] Instance empty_SortOptions : Emptiness SortOptions := λ _, false.
#[global] Instance empty_Pagination : Emptiness PaginationComponentOptions := λ _, false.

Record BrowseEntrySearchOptions := mkOptions {
  metadataDefinition : string;
  pagination : option PaginationComponentOptions;
  sort : option SortOptions;
  startsWith : option string;
  scope : option string
}.

(** Modelled from the spec: [PaginatedList], "page metadata (prev/next
    links) plus an ordered sequence of T"; the class is not among the
    sources. *)
Record PaginatedList (T : Type) := mkPaginatedList {
  prev : option string;
  next : option string;
  page : list T
}.
Arguments mkPaginatedList {T} _ _ _.
Arguments prev {T} _.
Arguments next {T} _.
Arguments page {T} _.

(** Modelled from the spec: [RemoteData], "a wrapper type representing the
    loading/success/error status of an asynchronous fetch"; the class is not
    among the sources. *)
Inductive RemoteDataState := Loading | Succeeded | Failed.

Record RemoteData (T : Type) := mkRemoteData {
  state : RemoteDataState;
  payload : option T
}.
Arguments mkRemoteData {T} _ _.
Arguments state {T} _.
Arguments payload {T} _.

(** The requests of [data/request.models] that the service creates. *)
Inductive RequestKind :=
| BrowseEndpointRequest
| BrowseEntriesRequest
| BrowseItemsRequest.

Record RestRequest := mkRestRequest {
  kind : RequestKind;
  uuid : string;
  href : option string
}.

(** What the response cache holds for a self link. *)
Record GenericSuccessResponse (T : Type) := mkResponse {
  pageInfo_prev : option string;
  pageInfo_next : option string;
  response_payload : list T
}.
Arguments mkResponse {T} _ _ _.
Arguments pageInfo_prev {T} _.
Arguments pageInfo_next {T} _.
Arguments response_payload {T} _.

Inductive ResponseCacheEntry (T : Type) :=
| SuccessEntry (response : GenericSuccessResponse T)
| ErrorEntry (message : string).
Arguments SuccessEntry {T} _.
Arguments ErrorEntry {T} _.

End Model.

Import Model.

(** ** The request service

    The service is the only state the browse service touches: it hands out
    request ids and records the requests configured with it.  Its class is
    not among the sources. *)

Module RequestService.

Record t := mk {
  generated : nat;
  configured : list RestRequest
}.

Definition M (A : Type) : Type := t → A * t.

Definition ret {A} (a : A) : M A := λ s, (a, s).
Definition bind {A B} (m : M A) (k : A → M B) : M B :=
  λ s, let r := m s in k r.1 r.2.

(** Modelled from the spec: [requestService.generateRequestId()]; the
    service is not among the sources, and the identifiers it hands out are
    abstracted to a counter. *)
Definition generateRequestId : M string :=
  λ s, (pretty (generated s), mk (S (generated s)) (configured s)).

(** Modelled from the spec: [requestService.configure(request)], called by
    the [configureRequest] operator; "every call may register a new
    outstanding request with the shared request/cache layer". *)
Definition configure (request : RestRequest) : M unit :=
  λ s, (tt, mk (generated s) (configured s ++ [request])).

Fixpoint mapM {A B} (f : A → M B) (l : list A) : M (list B) :=
  match l with
  | [] => ret []
  | a :: l' => bind (f a) (λ b, bind (mapM f l') (λ bs, ret (b :: bs)))
  end.

End RequestService.

Notation "'let*' x ':=' m 'in' k" := (RequestService.bind m (λ x, k))
  (at level 10, x name, m at level 100, k at level 200, only parsing).

(** ** [core/browse/browse.service.ts] *)

Module Operators.
Section operators.

(** The response cache is a collaborator that is not among the sources: it
    is taken as what it holds for a self link. *)
Context {T : Type}.
Variable responseCache : option string → option (ResponseCacheEntry T).

(** Modelled from the spec: [toRemoteDataObservable] of the remote data
    build service, which is not among the sources; it "combines a
    request-state stream and a response stream into a unified remote data
    wrapper exposing loading/success/error status". *)
Definition toRemoteData {P} (entry : option (ResponseCacheEntry T))
  (payload : option P) : RemoteData P :=
  match entry with
  | None => mkRemoteData Loading None
  | Some (ErrorEntry _) => mkRemoteData Failed None
  | Some (SuccessEntry _) => mkRemoteData Succeeded payload
  end.

(** [toRDPaginatedBrowseItems] and [toRDPaginatedBrowseEntries]: the payload
    is the [PaginatedList] built from a successful response, with its page
    copied item by item. *)
Definition toRDPaginated (source : Observable RestRequest)
  : Observable (RemoteData (PaginatedList T)) :=
  let href' := Rx.map href source in
  Rx.map (λ h,
    let payload :=
      match responseCache h with
      | Some (SuccessEntry response) =>
          let list := mkPaginatedList (pageInfo_prev response)
                        (pageInfo_next response) (response_payload response) in
          Some (mkPaginatedList (prev list) (next list)
                  ((λ item, item) <$> page list))
      | _ => None
      end in
    toRemoteData (responseCache h) payload) href'.

(** The request pipeline of the two operators,
    [source.pipe(map(href => new Request(generateRequestId(), href)),
    configureRequest(requestService))].  The pipeline is cold: a request is
    created and configured when the pipeline is subscribed to, and running
    this action is one subscription. *)
Definition requests (k : RequestKind) (source : Observable (option string))
  : RequestService.M (Observable RestRequest) :=
  let* created :=
    RequestService.mapM (λ h,
      let* id := RequestService.generateRequestId in
      let request := mkRestRequest k id h in
      let* _ := RequestService.configure request in
      RequestService.ret request) (emitted source) in
  RequestService.ret (mkObservable created (ending source)).

(** Modelled from the spec: the operators [getBrowseEntriesFor] and
    [getBrowseItemsFor] as far as the remote data build service decides
    them.  The source hands that service, which is not among the sources,
    three streams derived from the request pipeline, and the service decides
    how often the pipeline is subscribed to; the spec has the request/cache
    layer keep "one logical request per distinct URL", and the model is one
    subscription of the pipeline, whose requests are turned into remote
    data. *)
Definition requestFor (k : RequestKind) (source : Observable (option string))
  : RequestService.M (Observable (RemoteData (PaginatedList T))) :=
  let* created := requests k source in
  RequestService.ret (toRDPaginated created).

Definition getBrowseEntriesFor := requestFor BrowseEntriesRequest.
Definition getBrowseItemsFor := requestFor BrowseItemsRequest.

(** Modelled from the spec: [getFirstOccurrence] of [shared/operators],
    which is not among the sources; it "takes the first element of the
    resulting page". *)
Definition getFirstOccurrence (source : Observable (RemoteData (PaginatedList T)))
  : Observable (RemoteData T) :=
  Rx.map (λ rd, mkRemoteData (state rd) (payload rd ≫= λ list, head (page list)))
    source.

End operators.
End Operators.

Module BrowseService.

(** [private static toSearchKeyArray(metadatumKey)]; the [for] loop runs
    for [i] from [0] while [i < keyParts.length - 1]. *)
Fixpoint toSearchKeyArray_loop (keyParts : list string) (i : nat)
  (iterations : nat) (searchFor : list string) : list string :=
  match iterations with
  | 0 => searchFor
  | S iterations' =>
      let prevParts := slice0 (i + 1) keyParts in
      let nextPart := join "." (prevParts ++ ["*"]) in
      toSearchKeyArray_loop keyParts (i + 1) iterations' (searchFor ++ [nextPart])
  end.

Definition toSearchKeyArray (metadatumKey : string) : list string :=
  let keyParts := split "."%char metadatumKey in
  let searchFor := [] in
  let searchFor := searchFor ++ ["*"] in
  let searchFor :=
    toSearchKeyArray_loop keyParts 0 (length keyParts - 1) searchFor in
  let searchFor := searchFor ++ [metadatumKey] in
  searchFor.

Section service.

(** [URLCombiner] is not among the sources: it is taken as the function
    from the parts it is given to the URL its [toString] returns. *)
Variable URLCombiner : list string → string.

Context {Item BrowseEntry : Type}.
Variable itemsCache : option string → option (ResponseCacheEntry Item).
Variable entriesCache : option string → option (ResponseCacheEntry BrowseEntry).

(** The query arguments collected by the callback of [getBrowseEntriesFor]. *)
Definition getBrowseEntriesFor_args (options : BrowseEntrySearchOptions)
  : list string :=
  let args := [] in
  let args :=
    if isNotEmpty (sort options)
    then args ++ ["scope=" +:+ tpl (scope options)] else args in
  let args :=
    match sort options with
    | Some s => if isNotEmpty (sort options)
                then args ++ ["sort=" +:+ tpl (field s) +:+ "," +:+ tpl (direction s)]
                else args
    | None => args
    end in
  let args :=
    match pagination options with
    | Some p => if isNotEmpty (pagination options)
                then (args ++ ["page=" +:+ tpl (integer (currentPage p) - 1)%Z])
                       ++ ["size=" +:+ tpl (pageSize p)]
                else args
    | None => args
    end in
  let args :=
    if isNotEmpty (startsWith options)
    then args ++ ["startsWith=" +:+ tpl (startsWith options)] else args in
  args.

Definition withArgs (href : string) (args : list string) : string :=
  if isNotEmpty args
  then URLCombiner [href; "?" +:+ join "&" args]
  else href.

Definition getBrowseEntriesFor_href (options : BrowseEntrySearchOptions)
  (href : string) : string :=
  withArgs href (getBrowseEntriesFor_args options).

(** The query arguments collected by the callback of [getBrowseItemsFor]:
    the same four tests and pushes as in [getBrowseEntriesFor], followed by
    the one for [filterValue]. *)
Definition getBrowseItemsFor_args (filterValue : option string)
  (options : BrowseEntrySearchOptions) : list string :=
  let args := getBrowseEntriesFor_args options in
  let args :=
    if isNotEmpty filterValue
    then args ++ ["filterValue=" +:+ tpl filterValue] else args in
  args.

Definition getBrowseItemsFor_href (filterValue : option string)
  (options : BrowseEntrySearchOptions) (href : string) : string :=
  withArgs href (getBrowseItemsFor_args filterValue options).

(** The query arguments collected by the callback of [getFirstItemFor]. *)
Definition getFirstItemFor_args (scope : option string) : list string :=
  let args := [] in
  let args :=
    if hasValue scope then args ++ ["scope=" +:+ tpl scope] else args in
  let args := args ++ ["page=0"] in
  let args := args ++ ["size=1"] in
  args.

Definition getFirstItemFor_href (scope : option string) (href : string) : string :=
  withArgs href (getFirstItemFor_args scope).

(** The three methods, from the stream of [_links] objects that
    [getBrowseDefinitions().pipe(getBrowseDefinitionLinks(..))] delivers
    (that operator is not among the sources). *)
Definition getBrowseEntriesFor (options : BrowseEntrySearchOptions)
  (links : Observable (option (gmap string string)))
  : RequestService.M (Observable (RemoteData (PaginatedList BrowseEntry))) :=
  let s := hasValueOperator links in
  let s := Rx.map (λ l : gmap string string, l !! "entries") s in
  let s := hasValueOperator s in
  let s := Rx.map (getBrowseEntriesFor_href options) s in
  Operators.getBrowseEntriesFor entriesCache (Rx.map Some s).

Definition getBrowseItemsFor (filterValue : option string)
  (options : BrowseEntrySearchOptions)
  (links : Observable (option (gmap string string)))
  : RequestService.M (Observable (RemoteData (PaginatedList Item))) :=
  let s := hasValueOperator links in
  let s := Rx.map (λ l : gmap string string, l !! "items") s in
  let s := hasValueOperator s in
  let s := Rx.map (getBrowseItemsFor_href filterValue options) s in
  Operators.getBrowseItemsFor itemsCache (Rx.map Some s).

Definition getFirstItemFor (scope : option string)
  (links : Observable (option (gmap string string)))
  : RequestService.M (Observable (RemoteData Item)) :=
  let s := hasValueOperator links in
  let s := Rx.map (λ l : gmap string string, l !! "items") s in
  let s := hasValueOperator s in
  let s := Rx.map (getFirstItemFor_href scope) s in
  let* rds := Operators.getBrowseItemsFor itemsCache (Rx.map Some s) in
  RequestService.ret (Operators.getFirstOccurrence rds).

(** [getPrevBrowseItems] and [getNextBrowseItems]: reading [prev] or [next]
    of an [undefined] payload throws a [TypeError] before any stream is
    built. *)
Definition getPrevBrowseItems (items : RemoteData (PaginatedList Item))
  : RequestService.M (Thrown + Observable (RemoteData (PaginatedList Item))) :=
  match payload items with
  | None => RequestService.ret (inl TypeError)
  | Some list =>
      let* rds := Operators.getBrowseItemsFor itemsCache (observableOf (prev list)) in
      RequestService.ret (inr rds)
  end.

Definition getNextBrowseItems (items : RemoteData (PaginatedList Item))
  : RequestService.M (Thrown + Observable (RemoteData (PaginatedList Item))) :=
  match payload items with
  | None => RequestService.ret (inl TypeError)
  | Some list =>
      let* rds := Operators.getBrowseItemsFor itemsCache (observableOf (next list)) in
      RequestService.ret (inr rds)
  end.

End service.

(** [getBrowseURLFor(metadatumKey, linkPath)], from the stream of payloads
    that [getBrowseDefinitions().pipe(getRemoteDataPayload())] delivers. *)
Definition matchingKeys (searchKeyArray : list string) (def : BrowseDefinition)
  : option string :=
  find (λ key, (indexOf searchKeyArray key >=? 0)%Z) (metadataKeys def).

Definition findDefinition (searchKeyArray : list string)
  (browseDefinitions : list BrowseDefinition) : option BrowseDefinition :=
  find (λ def, isNotEmpty (matchingKeys searchKeyArray def)) browseDefinitions.

Definition notConfigured (metadatumKey linkPath : string) : Thrown :=
  Error ("A browse endpoint for " +:+ tpl linkPath +:+ " on "
         +:+ tpl metadatumKey +:+ " isn't configured").

Definition linkOrThrow (metadatumKey linkPath : string)
  (def : option BrowseDefinition) : Thrown + option string :=
  let links := def ≫= _links in
  let link := links ≫= λ l, l !! linkPath in
  if isEmpty def || isEmpty links || isEmpty link
  then inl (notConfigured metadatumKey linkPath)
  else inr link.

Definition getBrowseURLFor
  (browseDefinitions : Observable (list BrowseDefinition))
  (metadatumKey linkPath : string) : Observable (option string) :=
  let searchKeyArray := toSearchKeyArray metadatumKey in
  let s := Rx.map (findDefinition searchKeyArray) browseDefinitions in
  let s := tryMap (linkOrThrow metadatumKey linkPath) s in
  let s := startWith None s in
  distinctUntilChanged s.

End BrowseService.

(** ** The browse-by-taxonomy page component *)

Module BrowseByTaxonomyPage.

(** Modelled from the spec: [VocabularyEntryDetail], "a label/value pair
    representing one taxonomy node"; the model class is not among the
    sources. *)
Record VocabularyEntryDetail := mkDetail {
  label : string;
  value : string
}.

#[global] Instance VocabularyEntryDetail_eq_dec : EqDecision VocabularyEntryDetail.
Proof. solve_decision. Defined.

(** The selection state of the component. *)
Record Component := mkComponent {
  selectedItems : list VocabularyEntryDetail;
  filterValues : list string
}.

#[global] Instance Component_eq_dec : EqDecision Component.
Proof. solve_decision. Defined.

(** The component as the test bed creates it. *)
Definition created : Component := mkComponent [] [].

(** The filter-string wire format, ["<value>,equals"]. *)
Definition filterString (detail : VocabularyEntryDetail) : string :=
  tpl (value detail) +:+ ",equals".

(** Modelled from the spec: [onSelect] of the component, which is not among
    the sources (only its test is); it "appends [detail] to [selectedItems]
    and appends its derived filter string to [filterValues]". *)
Definition onSelect (detail : VocabularyEntryDetail) (c : Component) : Component :=
  mkComponent (selectedItems c ++ [detail])
              (filterValues c ++ [filterString detail]).

(** Modelled from the spec: what [onDeselect] removes.  [filterValues] is
    the list "mirrored" from [selectedItems], "a parallel ordered list of
    filter strings", so the filter string that matches a selected item is the
    one at the item's position: the items that are [detail] are removed
    together with the filter strings at their positions, and the others stay
    in their order.  (Where there are more items than filter strings, the
    items beyond them have no filter string to remove.) *)
Fixpoint removeSelected (detail : VocabularyEntryDetail)
  (items : list VocabularyEntryDetail) (filters : list string)
  : list VocabularyEntryDetail * list string :=
  match items with
  | [] => ([], filters)
  | entry :: items' =>
      match filters with
      | [] => (filter (λ e, e ≠ detail) items, [])
      | v :: filters' =>
          let rest := removeSelected detail items' filters' in
          if decide (entry = detail) then rest
          else (entry :: rest.1, v :: rest.2)
      end
  end.

(** Modelled from the spec: [onDeselect] of the component, which is not
    among the sources (only its test is); it "removes [detail] from
    [selectedItems] and removes the matching filter string, preserving
    relative order of remaining entries". *)
Definition onDeselect (detail : VocabularyEntryDetail) (c : Component) : Component :=
  let rest := removeSelected detail (selectedItems c) (filterValues c) in
  mkComponent rest.1 rest.2.

(** A call of one of the two handlers, and a sequence of calls. *)
Inductive Call :=
| Select (detail : VocabularyEntryDetail)
| Deselect (detail : VocabularyEntryDetail).

Definition call (c : Component) (e : Call) : Component :=
  match e with
  | Select detail => onSelect detail c
  | Deselect detail => onDeselect detail c
  end.

Definition run (calls : list Call) (c : Component) : Component :=
  fold_left call calls c.

(** The invariant of the data model: the two lists have the same length and
    the i-th filter string is the one derived from the i-th selected item. *)
Definition invariant (c : Component) : Prop :=
  length (selectedItems c) = length (filterValues c) ∧
  ∀ i item, selectedItems c !! i = Some item →
            filterValues c !! i = Some (filterString item).

End BrowseByTaxonomyPage.

(** ** The notions the specification uses *)

Module Spec.

Import BrowseService.

(** A definition's key list intersects the search-key sequence. *)
Definition intersects (searchKeyArray : list string) (def : BrowseDefinition)
  : Prop :=
  ∃ key, key ∈ metadataKeys def ∧ key ∈ searchKeyArray.

(** [def] is the first definition of the list whose key list intersects the
    sequence. *)
Definition firstIntersecting (searchKeyArray : list string)
  (defs : list BrowseDefinition) (def : BrowseDefinition) : Prop :=
  ∃ before after,
    defs = before ++ def :: after ∧
    Forall (λ d, ¬ intersects searchKeyArray d) before ∧
    intersects searchKeyArray def.

(** [def] has the link [l] for [linkPath]; an empty href is no link. *)
Definition hasLink (def : BrowseDefinition) (linkPath l : string) : Prop :=
  (_links def ≫= λ links, links !! linkPath) = Some l ∧ l ≠ "".

(** What the specification says of [getBrowseURLFor], for one payload of
    definitions: the link of the first intersecting definition is emitted
    after the initial [undefined], and the stream ends with the error exactly
    when no definition intersects or the matched one has no link. *)
Definition getBrowseURLFor_claim (metadatumKey linkPath : string)
  (defs : list BrowseDefinition) : Prop :=
  let searchKeyArray := toSearchKeyArray metadatumKey in
  let out := getBrowseURLFor (observableOf defs) metadatumKey linkPath in
  (∀ def l, firstIntersecting searchKeyArray defs def →
            hasLink def linkPath l →
            out = mkObservable [None; Some l] Completed) ∧
  (ending out = Errored (notConfigured metadatumKey linkPath) ↔
     Forall (λ d, ¬ intersects searchKeyArray d) defs ∨
     ∃ def, firstIntersecting searchKeyArray defs def ∧
            ¬ ∃ l, hasLink def linkPath l) ∧
  (ending out = Completed ∨
   ending out = Errored (notConfigured metadatumKey linkPath)).

(** [s] starts with [start]. *)
Fixpoint startsWithString (start s : string) : bool :=
  match start with
  | EmptyString => true
  | String a start' =>
      match s with
      | EmptyString => false
      | String b s' => Ascii.eqb a b && startsWithString start' s'
      end
  end.

(** A query parameter [name] occurs among the arguments. *)
Definition hasParam (name : string) (args : list string) : bool :=
  existsb (startsWithString (name +:+ "=")) args.

End Spec.

(** ** The request for the browse endpoint *)

Module BrowseEndpoint.

(** Modelled from the spec: [isNotEmptyOperator()] of [shared/empty.util],
    which is not among the sources: [filter(isNotEmpty)]. *)
Definition isNotEmptyOperator `{Emptiness A} (o : Observable A) : Observable A :=
  mkObservable (List.filter isNotEmpty (emitted o)) (ending o).

(** The stream [request$] of [getBrowseDefinitions], from the stream of
    endpoint URLs that [halService.getEndpoint(this.linkPath)] delivers (the
    service is not among the sources). *)
Definition request (endpoint : Observable (option string))
  : RequestService.M (Observable RestRequest) :=
  let s := isNotEmptyOperator endpoint in
  let s := distinctUntilChanged s in
  let* requests :=
    RequestService.mapM (λ endpointURL,
      let* id := RequestService.generateRequestId in
      let request := mkRestRequest BrowseEndpointRequest id endpointURL in
      let* _ := RequestService.configure request in
      RequestService.ret request) (emitted s) in
  RequestService.ret (mkObservable requests (ending s)).

End BrowseEndpoint.

(** ** The hrefs the methods hand to their operator *)

Module BrowseHrefs.
Section hrefs.

Variable URLCombiner : list string → string.

(** The part of [getBrowseEntriesFor] before its operator:
    [hasValueOperator(), map(_links => _links.entries), hasValueOperator(),
    map(href => ...)], from the stream of [_links] objects. *)
Definition getBrowseEntriesFor (options : BrowseEntrySearchOptions)
  (links : Observable (option (gmap string string))) : Observable string :=
  let s := hasValueOperator links in
  let s := Rx.map (λ l : gmap string string, l !! "entries") s in
  let s := hasValueOperator s in
  Rx.map (BrowseService.getBrowseEntriesFor_href URLCombiner options) s.

(** The same part of [getBrowseItemsFor]. *)
Definition getBrowseItemsFor (filterValue : option string)
  (options : BrowseEntrySearchOptions)
  (links : Observable (option (gmap string string))) : Observable string :=
  let s := hasValueOperator links in
  let s := Rx.map (λ l : gmap string string, l !! "items") s in
  let s := hasValueOperator s in
  Rx.map (BrowseService.getBrowseItemsFor_href URLCombiner filterValue options) s.

(** The same part of [getFirstItemFor]. *)
Definition getFirstItemFor (scope : option string)
  (links : Observable (option (gmap string string))) : Observable string :=
  let s := hasValueOperator links in
  let s := Rx.map (λ l : gmap string string, l !! "items") s in
  let s := hasValueOperator s in
  Rx.map (BrowseService.getFirstItemFor_href URLCombiner scope) s.

End hrefs.
End BrowseHrefs.

(** ** Further notions used to state properties of the code *)

Module Notions.

Import BrowseService Spec.

(** The number of occurrences of a character in a string. *)
Fixpoint countChar (c : Ascii.ascii) (s : string) : nat :=
  match s with
  | EmptyString => 0
  | String a s' => (if Ascii.eqb a c then 1 else 0) + countChar c s'
  end.

(** No value of the list is equal to the one just before it. *)
Fixpoint noRepeat {A} (l : list A) : Prop :=
  match l with
  | [] => True
  | x :: l' => match l' with [] => True | y :: _ => x ≠ y end ∧ noRepeat l'
  end.

(** The name of a query argument: what stands before its first [=]. *)
Fixpoint paramName (arg : string) : string :=
  match arg with
  | EmptyString => EmptyString
  | String c rest => if Ascii.eqb c "="%char then EmptyString
                     else String c (paramName rest)
  end.

(** A payload of definitions has a first definition whose key list
    intersects the search keys, and that definition has a link. *)
Definition resolvable (searchKeyArray : list string) (linkPath : string)
  (defs : list BrowseDefinition) : Prop :=
  ∃ def l, firstIntersecting searchKeyArray defs def ∧ hasLink def linkPath l.

(** The links named [name] of the [_links] objects of a stream, in order;
    an [undefined] object and an object without the link give none. *)
Definition linksNamed (name : string) (links : list (option (gmap string string)))
  : list string :=
  omap (λ l : option (gmap string string), l ≫= λ m, m !! name) links.

End Notions.

(** ** Facts about the built-ins *)

Section js_facts.

Lemma split_not_nil sep s : split sep s ≠ [].
Proof.
  destruct s as [|c s]; simpl; [done|].
  destruct (Ascii.eqb c sep); [done|]. by destruct (split sep s).
Qed.

Lemma length_split_pos sep s : 0 < length (split sep s).
Proof.
  pose proof (split_not_nil sep s). destruct (split sep s); simpl; [done|lia].
Qed.

Lemma join_cons sep p q qs :
  join sep (p :: q :: qs) = p +:+ sep +:+ join sep (q :: qs).
Proof. reflexivity. Qed.

Lemma string_app_cons c (a b : string) : String c a +:+ b = String c (a +:+ b).
Proof. reflexivity. Qed.

Lemma string_app_nil_l (a : string) : "" +:+ a = a.
Proof. reflexivity. Qed.

Lemma string_app_assoc (a b c : string) : (a +:+ b) +:+ c = a +:+ (b +:+ c).
Proof.
  induction a as [|x a IH]; [done|]. by rewrite !string_app_cons, IH.
Qed.

Lemma string_app_nil_r (a : string) : a +:+ "" = a.
Proof. induction a as [|x a IH]; [done|]. by rewrite string_app_cons, IH. Qed.

Lemma string_app_empty (a b : string) : a +:+ b = "" → a = "" ∧ b = "".
Proof. destruct a; [done|]. by rewrite string_app_cons. Qed.

Lemma string_length_app (a b : string) :
  String.length (a +:+ b) = String.length a + String.length b.
Proof.
  induction a as [|x a IH]; [done|]. rewrite string_app_cons. simpl. lia.
Qed.

(** Appending a common suffix is injective. *)
Lemma string_app_inj_r (a b suffix : string) :
  a +:+ suffix = b +:+ suffix → a = b.
Proof.
  revert b. induction a as [|x a IH]; intros [|y b] Heq; [done| | |].
  - apply (f_equal String.length) in Heq.
    rewrite string_app_nil_l, string_app_cons in Heq. simpl in Heq.
    rewrite string_length_app in Heq. lia.
  - apply (f_equal String.length) in Heq.
    rewrite string_app_nil_l, string_app_cons in Heq. simpl in Heq.
    rewrite string_length_app in Heq. lia.
  - rewrite !string_app_cons in Heq. injection Heq as -> Heq.
    f_equal. by apply IH.
Qed.

(** Joining what was split gives the string back. *)
Lemma join_split sep s : join (String sep "") (split sep s) = s.
Proof.
  induction s as [|c s IH]; [done|]. simpl.
  destruct (Ascii.eqb_spec c sep) as [->|Hne].
  - pose proof (split_not_nil sep s) as Hnil.
    destruct (split sep s) as [|p ps]; [done|].
    rewrite join_cons, string_app_nil_l, IH. reflexivity.
  - destruct (split sep s) as [|p ps] eqn:Hs.
    + by destruct (split_not_nil sep s).
    + destruct ps as [|q qs].
      * simpl in *. by rewrite IH.
      * rewrite join_cons in *. by rewrite string_app_cons, IH.
Qed.

(** Joining a concatenation of two non-empty arrays. *)
Lemma join_app sep (xs ys : list string) :
  xs ≠ [] → ys ≠ [] →
  join sep (xs ++ ys) = join sep xs +:+ sep +:+ join sep ys.
Proof.
  intros Hx Hy. induction xs as [|x xs IH]; [done|].
  destruct xs as [|x' xs].
  - destruct ys as [|y ys]; [done|]. reflexivity.
  - change ((x :: x' :: xs) ++ ys) with (x :: x' :: (xs ++ ys)).
    rewrite !join_cons.
    change (x' :: xs ++ ys) with ((x' :: xs) ++ ys).
    rewrite IH by done. by rewrite !string_app_assoc.
Qed.

Lemma indexOf_ge_m1 l x : (-1 ≤ indexOf l x)%Z.
Proof.
  induction l as [|y l IH]; simpl; [lia|].
  destruct (String.eqb y x); [lia|].
  destruct (Z.ltb_spec (indexOf l x) 0); lia.
Qed.

(** [indexOf] answers a non-negative index exactly for the members. *)
Lemma indexOf_nonneg l x : (0 ≤ indexOf l x)%Z ↔ x ∈ l.
Proof.
  induction l as [|y l IH]; simpl.
  - split; [lia|]. by intros ?%elem_of_nil.
  - destruct (String.eqb_spec y x) as [->|Hne].
    + split; [intros _; left | lia].
    + rewrite elem_of_cons, <- IH.
      pose proof (indexOf_ge_m1 l x).
      destruct (Z.ltb_spec (indexOf l x) 0); split; try lia.
      intros [?|?]; [congruence | lia].
Qed.

End js_facts.

(** ** The dotted-key expansion *)

Section toSearchKeyArray_facts.

Import BrowseService.

(** The loop appends one wildcard per iteration, built from the first
    [i + 1] parts. *)
Lemma toSearchKeyArray_loop_unfold keyParts iterations : ∀ i searchFor,
  toSearchKeyArray_loop keyParts i iterations searchFor =
  searchFor ++ ((λ j, join "." (take j keyParts ++ ["*"])) <$> seq (i + 1) iterations).
Proof.
  induction iterations as [|k IH]; intros i searchFor; simpl.
  - by rewrite app_nil_r.
  - rewrite IH. unfold slice0. rewrite <- app_assoc. simpl.
    by replace (i + 1 + 1) with (S (i + 1)) by lia.
Qed.

(** A wildcard is the joined prefix followed by [".*"]. *)
Lemma wildcard_of_prefix (keyParts : list string) j :
  take j keyParts ≠ [] →
  join "." (take j keyParts ++ ["*"]) = join "." (take j keyParts) +:+ ".*".
Proof. intros Hne. by rewrite join_app. Qed.

Lemma take_not_nil {A} (l : list A) j : 0 < j → l ≠ [] → take j l ≠ [].
Proof. destruct j; [lia|]. by destruct l. Qed.

(** The joined first [j] parts, followed by a dot, start the key. *)
Lemma prefix_of_key key j :
  let keyParts := split "."%char key in
  0 < j < length keyParts →
  key = join "." (take j keyParts) +:+ "." +:+ join "." (drop j keyParts).
Proof.
  intros keyParts [Hj Hlt].
  rewrite <- join_app.
  - rewrite take_drop. symmetry. apply (join_split "."%char).
  - apply take_not_nil; [done|]. destruct keyParts; simpl in *; [lia|done].
  - intros Hnil. apply (f_equal length) in Hnil.
    rewrite length_drop in Hnil. simpl in Hnil. lia.
Qed.

(** Every element of the expansion of a non-empty key is a non-empty
    string. *)
Lemma toSearchKeyArray_elements key :
  toSearchKeyArray key =
  ["*"] ++ ((λ j, join "." (take j (split "."%char key) ++ ["*"]))
              <$> seq 1 (length (split "."%char key) - 1)) ++ [key].
Proof.
  unfold toSearchKeyArray. rewrite toSearchKeyArray_loop_unfold.
  by rewrite <- app_assoc.
Qed.

Lemma join_snoc_not_empty sep (l : list string) :
  join sep (l ++ ["*"]) ≠ "".
Proof.
  destruct l as [|x l]; [done|].
  rewrite join_app by done.
  intros [_ [_ ?]%string_app_empty]%string_app_empty. done.
Qed.

Lemma toSearchKeyArray_not_empty key k :
  key ≠ "" → k ∈ toSearchKeyArray key → k ≠ "".
Proof.
  intros Hkey. rewrite toSearchKeyArray_elements.
  rewrite !elem_of_app, list_elem_of_fmap, !list_elem_of_singleton.
  intros [->|[[j [-> _]]| ->]]; [done| |done].
  apply join_snoc_not_empty.
Qed.

End toSearchKeyArray_facts.

(** C3. [toSearchKeyArray("a.b.c")] is [["*"; "a.*"; "a.b.*"; "a.b.c"]]; in
    general, for a key with [n] dot-separated parts, the result is ["*"],
    then for [j = 1 .. n-1] the wildcard made of the first [j] parts joined
    by dots and followed by [".*"] (each such prefix, followed by a dot,
    starts the key), then the key itself: [n + 1] strings in all. *)
Theorem toSearchKeyArray_expansion :
  BrowseService.toSearchKeyArray "a.b.c" = ["*"; "a.*"; "a.b.*"; "a.b.c"] ∧
  ∀ key,
    let keyParts := split "."%char key in
    let n := length keyParts in
    BrowseService.toSearchKeyArray key =
      ["*"] ++ ((λ j, join "." (take j keyParts) +:+ ".*") <$> seq 1 (n - 1))
            ++ [key] ∧
    length (BrowseService.toSearchKeyArray key) = n + 1 ∧
    Forall (λ j, ∃ rest, key = join "." (take j keyParts) +:+ "." +:+ rest)
           (seq 1 (n - 1)).
Proof.
  split; [reflexivity|].
  intros key keyParts n.
  assert (Hpos : 0 < n) by apply length_split_pos.
  assert (Hparts : keyParts ≠ []) by apply split_not_nil.
  split; [|split].
  - rewrite toSearchKeyArray_elements. fold keyParts n. do 2 f_equal.
    apply list_fmap_ext. intros i j Hj.
    apply lookup_seq in Hj as [-> Hlt].
    apply wildcard_of_prefix, take_not_nil; [lia|done].
  - rewrite toSearchKeyArray_elements. fold keyParts n.
    rewrite !length_app, length_fmap, length_seq. simpl. lia.
  - apply Forall_forall. intros j Hj.
    apply elem_of_seq in Hj.
    exists (join "." (drop j keyParts)).
    apply prefix_of_key. fold keyParts n. lia.
Qed.

(** ** Streams *)

Section rx_facts.

Context {A B : Type}.

(** What a throwing [map] emits are results of the callback. *)
Lemma tryMap_go_Forall (P : B → Prop) (f : A → Thrown + B) l e :
  (∀ a b, f a = inr b → P b) → Forall P (tryMap_go f l e).1.
Proof.
  intros Hf. induction l as [|a l IH]; simpl; [constructor|].
  destruct (f a) as [err|b] eqn:Hfa; simpl; [constructor|].
  constructor; eauto.
Qed.

(** A throwing [map] ends as its source does, or with what the callback
    threw. *)
Lemma tryMap_go_ending (f : A → Thrown + B) l e :
  (tryMap_go f l e).2 = e ∨ ∃ a err, a ∈ l ∧ f a = inl err ∧ (tryMap_go f l e).2 = Errored err.
Proof.
  induction l as [|a l IH]; simpl; [by left|].
  destruct (f a) as [err|b] eqn:Hfa; simpl.
  - right. exists a, err. split; [left|done].
  - destruct IH as [IH|(a' & err & Hin & Hfa' & IH)]; [by left|].
    right. exists a', err. split; [by right|done].
Qed.

Lemma distinct_go_Forall `{EqDecision A} (P : A → Prop) prev (l : list A) :
  Forall P l → Forall P (distinct_go prev l).
Proof.
  intros Hl. revert prev. induction Hl as [|a l Ha Hl IH]; intros prev; simpl.
  - constructor.
  - destruct (decide (a = prev)); [apply IH|]. constructor; [done|apply IH].
Qed.

(** [find] answers the first element that satisfies the callback. *)
Lemma find_first (p : A → bool) (l : list A) x :
  find p l = Some x ↔
  ∃ before after, l = before ++ x :: after ∧
                  Forall (λ y, p y = false) before ∧ p x = true.
Proof.
  unfold find. induction l as [|y l IH]; simpl.
  - split; [done|]. intros (before & after & Heq & _). by destruct before.
  - destruct (p y) eqn:Hy.
    + split.
      * intros [= ->]. exists [], l. by repeat split.
      * intros ([|z before] & after & Heq & Hbefore & Hx); simplify_eq/=; [done|].
        apply Forall_cons in Hbefore as [? _]. congruence.
    + rewrite IH. split.
      * intros (before & after & -> & Hbefore & Hx).
        exists (y :: before), after. repeat split; [|done]. by constructor.
      * intros ([|z before] & after & Heq & Hbefore & Hx); simplify_eq/=.
        { congruence. }
        apply Forall_cons in Hbefore as [_ ?]. by exists before, after.
Qed.

Lemma find_nothing (p : A → bool) (l : list A) :
  find p l = None ↔ Forall (λ y, p y = false) l.
Proof.
  unfold find. induction l as [|y l IH]; simpl.
  - split; [constructor|done].
  - destruct (p y) eqn:Hy.
    + split; [done|]. intros [? _]%Forall_cons. congruence.
    + rewrite IH. split; [by constructor|]. by intros [_ ?]%Forall_cons.
Qed.

End rx_facts.

(** ** [getBrowseURLFor] *)

Section getBrowseURLFor_facts.

Import BrowseService Spec.

Lemma isEmpty_string (s : string) : isEmpty s = true ↔ s = "".
Proof. by destruct s. Qed.

(** When no search key is the empty string, a definition is selected
    exactly when its key list intersects the search keys. *)
Lemma matchingKeys_intersects searchKeyArray def :
  (∀ k, k ∈ searchKeyArray → k ≠ "") →
  isNotEmpty (matchingKeys searchKeyArray def) = true ↔
  intersects searchKeyArray def.
Proof.
  intros Hne. unfold isNotEmpty, matchingKeys, intersects.
  destruct (find _ (metadataKeys def)) as [k|] eqn:Hfind.
  - apply find_first in Hfind as (before & after & Hkeys & _ & Hk).
    apply Z.geb_le, indexOf_nonneg in Hk.
    assert (k ∈ metadataKeys def).
    { rewrite Hkeys. apply elem_of_app. right. left. }
    split; [by exists k|]. intros _.
    apply negb_true_iff, not_true_iff_false. cbn.
    rewrite isEmpty_string. by apply Hne.
  - split; [done|]. intros (k & Hk & Hska).
    apply find_nothing in Hfind.
    rewrite Forall_forall in Hfind. specialize (Hfind k Hk).
    apply indexOf_nonneg, Z.geb_le in Hska. congruence.
Qed.

Lemma findDefinition_first searchKeyArray defs def :
  (∀ k, k ∈ searchKeyArray → k ≠ "") →
  findDefinition searchKeyArray defs = Some def ↔
  firstIntersecting searchKeyArray defs def.
Proof.
  intros Hne. unfold findDefinition, firstIntersecting.
  rewrite find_first. do 2 (apply exist_proper; intros ?).
  rewrite matchingKeys_intersects by done.
  apply and_iff_compat_l, and_iff_compat_r.
  apply Forall_proper; [|done]. intros d.
  rewrite <- matchingKeys_intersects by done.
  by rewrite not_true_iff_false.
Qed.

Lemma findDefinition_none searchKeyArray defs :
  (∀ k, k ∈ searchKeyArray → k ≠ "") →
  findDefinition searchKeyArray defs = None ↔
  Forall (λ d, ¬ intersects searchKeyArray d) defs.
Proof.
  intros Hne. unfold findDefinition. rewrite find_nothing.
  apply Forall_proper; [|done]. intros d.
  rewrite <- matchingKeys_intersects by done.
  by rewrite not_true_iff_false.
Qed.

(** The second callback returns the link when there is a non-empty one and
    throws otherwise. *)
Lemma linkOrThrow_link metadatumKey linkPath def l :
  hasLink def linkPath l →
  linkOrThrow metadatumKey linkPath (Some def) = inr (Some l).
Proof.
  intros [Hl Hne]. unfold linkOrThrow. simpl in *.
  destruct (_links def) as [links|]; simpl in *; [|done].
  rewrite Hl. cbn. by destruct l.
Qed.

Lemma linkOrThrow_no_link metadatumKey linkPath def :
  (¬ ∃ l, hasLink def linkPath l) →
  linkOrThrow metadatumKey linkPath (Some def) =
  inl (notConfigured metadatumKey linkPath).
Proof.
  intros Hno. unfold linkOrThrow, hasLink in *. simpl in *.
  destruct (_links def) as [links|]; simpl in *; [|done].
  destruct (links !! linkPath) as [l|] eqn:Hl; cbn; [|done].
  destruct l as [|c l]; [done|]. destruct Hno. by exists (String c l).
Qed.

Lemma linkOrThrow_undefined metadatumKey linkPath :
  linkOrThrow metadatumKey linkPath None =
  inl (notConfigured metadatumKey linkPath).
Proof. reflexivity. Qed.

Lemma hasLink_cases def linkPath :
  (∃ l, hasLink def linkPath l) ∨ ¬ ∃ l, hasLink def linkPath l.
Proof.
  unfold hasLink.
  destruct (_links def ≫= λ links, links !! linkPath) as [l|].
  - destruct (decide (l = "")) as [->|Hne].
    + right. intros (l & [= <-] & Hl). done.
    + left. by exists l.
  - right. intros (l & Hl & _). done.
Qed.

(** The callback only returns defined, non-empty links. *)
Lemma linkOrThrow_returns metadatumKey linkPath def v :
  linkOrThrow metadatumKey linkPath def = inr v → v ≠ None.
Proof.
  unfold linkOrThrow. intros Hv Hnone.
  destruct (isEmpty def || isEmpty (def ≫= _links)
            || isEmpty ((def ≫= _links) ≫= λ l, l !! linkPath)) eqn:Hc;
    [done|].
  injection Hv as Hv. rewrite Hnone in Hv. rewrite Hv in Hc.
  rewrite orb_true_r in Hc. done.
Qed.

(** The stream for a single payload of definitions. *)
Lemma getBrowseURLFor_single defs metadatumKey linkPath :
  getBrowseURLFor (observableOf defs) metadatumKey linkPath =
  match linkOrThrow metadatumKey linkPath
          (findDefinition (toSearchKeyArray metadatumKey) defs) with
  | inl e => mkObservable [None] (Errored e)
  | inr v => mkObservable (None :: distinct_go None [v]) Completed
  end.
Proof.
  unfold getBrowseURLFor, distinctUntilChanged, startWith, tryMap, Rx.map.
  simpl. by destruct (linkOrThrow _ _ _).
Qed.

End getBrowseURLFor_facts.

(** C2, as amended.  For every metadatum key other than the empty string,
    every link path and every payload of browse definitions,
    [getBrowseURLFor] expands the key into its search keys, selects the
    first definition whose key list intersects them and emits its link for
    the link path after the initial [undefined]; the stream ends with the
    "isn't configured" error exactly when no definition's key list
    intersects the search keys or the selected definition has no non-empty
    link for the link path, and completes otherwise. *)
Theorem getBrowseURLFor_first_match metadatumKey linkPath defs :
  metadatumKey ≠ "" →
  Spec.getBrowseURLFor_claim metadatumKey linkPath defs.
Proof.
  intros Hkey. unfold Spec.getBrowseURLFor_claim.
  pose proof (toSearchKeyArray_not_empty metadatumKey) as Hne.
  set (searchKeyArray := BrowseService.toSearchKeyArray metadatumKey) in *.
  assert (Hska : ∀ k, k ∈ searchKeyArray → k ≠ "") by (intros k; by apply Hne).
  rewrite getBrowseURLFor_single. fold searchKeyArray.
  destruct (BrowseService.findDefinition searchKeyArray defs) as [d|] eqn:Hfind.
  - apply findDefinition_first in Hfind as Hfirst; [|done].
    assert (Honly : ∀ def, Spec.firstIntersecting searchKeyArray defs def → def = d).
    { intros def Hdef. apply findDefinition_first in Hdef; [|done]. congruence. }
    destruct (hasLink_cases d linkPath) as [[l Hl]|Hno].
    + rewrite (linkOrThrow_link _ _ _ _ Hl). simpl.
      split; [|split; [|by left]].
      * intros def l' ->%Honly [Hl' _]. destruct Hl as [Hl _].
        rewrite Hl in Hl'. by injection Hl' as ->.
      * split; [done|]. intros [Hnone|(def & ->%Honly & Hno)].
        -- apply findDefinition_none in Hnone; [congruence|done].
        -- destruct Hno. by exists l.
    + rewrite (linkOrThrow_no_link _ _ _ Hno). simpl.
      split; [|split; [|by right]].
      * intros def l ->%Honly Hl. destruct Hno. by exists l.
      * split; [|done]. intros _. right. by exists d.
  - rewrite linkOrThrow_undefined. simpl.
    apply findDefinition_none in Hfind as Hnone; [|done].
    split; [|split; [|by right]].
    + intros def l Hdef%findDefinition_first; [congruence|done].
    + split; [|done]. intros _. by left.
Qed.

(** The amended claim at the key [dc.contributor.author], with a first
    definition that does not match and a second one that does. *)
Lemma getBrowseURLFor_first_match_witness :
  "dc.contributor.author" ≠ "" ∧
  Spec.getBrowseURLFor_claim "dc.contributor.author" "items"
    [mkBrowseDefinition ["dc.date.issued"] (Some {["items" := "/browses/date/items"]});
     mkBrowseDefinition ["dc.contributor.*"; "dc.creator"]
       (Some {["items" := "/browses/author/items"]})].
Proof.
  split; [done|]. apply getBrowseURLFor_first_match. done.
Defined.

(** C2, the claim as stated fails for the empty key: its search keys are
    ["*"] and [""], the only definition lists the key [""] and has a link
    for [items], yet the callback of [find] tests the matching key [""]
    with [isNotEmpty], selects nothing, and the stream ends with the
    error. *)
Lemma getBrowseURLFor_empty_key :
  ¬ Spec.getBrowseURLFor_claim "" "items"
      [mkBrowseDefinition [""] (Some {["items" := "/browses/title/items"]})].
Proof.
  intros [Hlink _].
  specialize (Hlink (mkBrowseDefinition [""] (Some {["items" := "/browses/title/items"]}))
                    "/browses/title/items").
  assert (Hout : BrowseService.getBrowseURLFor
            (observableOf [mkBrowseDefinition [""]
               (Some {["items" := "/browses/title/items"]})]) "" "items"
          = mkObservable [None] (Errored (BrowseService.notConfigured "" "items")))
    by (vm_compute; reflexivity).
  rewrite Hout in Hlink. 
  enough (mkObservable [None] (Errored (BrowseService.notConfigured "" "items"))
          = mkObservable [None; Some "/browses/title/items"] Completed) by done.
  apply Hlink.
  - exists [], []. split; [done|]. split; [constructor|].
    exists "". split; [left|]. vm_compute. right. left.
  - split; [|done]. vm_compute. reflexivity.
Qed.

(** C9. Whatever the source of definitions delivers, and for every key and
    link path, the first value a subscriber of [getBrowseURLFor] receives is
    [undefined]: it precedes every link and the error, and no later value
    is [undefined]. *)
Theorem getBrowseURLFor_starts_undefined
  (browseDefinitions : Observable (list BrowseDefinition))
  (metadatumKey linkPath : string) :
  ∃ rest,
    emitted (BrowseService.getBrowseURLFor browseDefinitions metadatumKey linkPath)
    = None :: rest ∧
    Forall (λ v, v ≠ None) rest.
Proof.
  unfold BrowseService.getBrowseURLFor, distinctUntilChanged, startWith. simpl.
  eexists. split; [reflexivity|].
  apply distinct_go_Forall, tryMap_go_Forall.
  intros def v. apply linkOrThrow_returns.
Qed.

(** ** The query arguments *)

Section query_facts.

Import BrowseService Spec.

(** Which parameters [getBrowseEntriesFor] appends: [sort], [page], [size]
    and [startsWith] follow their own option, while [scope] follows the
    [sort] option. *)
Lemma getBrowseEntriesFor_params options :
  let args := getBrowseEntriesFor_args options in
  hasParam "scope" args = isNotEmpty (sort options) ∧
  hasParam "sort" args = isNotEmpty (sort options) ∧
  hasParam "page" args = isNotEmpty (pagination options) ∧
  hasParam "size" args = isNotEmpty (pagination options) ∧
  hasParam "startsWith" args = isNotEmpty (startsWith options).
Proof.
  destruct options as [definition [p|] [s|] [[|c prefix]|] sc];
    repeat split; lazy; reflexivity.
Qed.

(** [getBrowseItemsFor] appends the same ones, and [filterValue] when the
    filter value is not empty. *)
Lemma getBrowseItemsFor_params filterValue options :
  let args := getBrowseItemsFor_args filterValue options in
  hasParam "scope" args = isNotEmpty (sort options) ∧
  hasParam "sort" args = isNotEmpty (sort options) ∧
  hasParam "page" args = isNotEmpty (pagination options) ∧
  hasParam "size" args = isNotEmpty (pagination options) ∧
  hasParam "startsWith" args = isNotEmpty (startsWith options) ∧
  hasParam "filterValue" args = isNotEmpty filterValue.
Proof.
  destruct options as [definition [p|] [s|] [[|c prefix]|] sc];
    destruct filterValue as [[|c' v]|];
    repeat split; lazy; reflexivity.
Qed.

End query_facts.

(** C1. The claim fails on the code by a slip in both callbacks: the
    [scope] argument is pushed under the test [isNotEmpty(options.sort)].
    With a scope and no sort nothing is appended and the href is returned as
    it is; with a sort and no scope the argument [scope=undefined] is
    appended. *)
Theorem getBrowseEntriesFor_scope_follows_sort :
  let scoped := mkOptions "author" None None None (Some "c0ffee") in
  let sorted :=
    mkOptions "author" None (Some (mkSortOptions "dc.title" ASC)) None None in
  (isNotEmpty (scope scoped) = true ∧
   BrowseService.getBrowseEntriesFor_args scoped = [] ∧
   BrowseService.getBrowseItemsFor_args None scoped = [] ∧
   ∀ URLCombiner href,
     BrowseService.getBrowseEntriesFor_href URLCombiner scoped href = href ∧
     BrowseService.getBrowseItemsFor_href URLCombiner None scoped href = href) ∧
  (isNotEmpty (scope sorted) = false ∧
   BrowseService.getBrowseEntriesFor_args sorted
     = ["scope=undefined"; "sort=dc.title,ASC"] ∧
   BrowseService.getBrowseItemsFor_args None sorted
     = ["scope=undefined"; "sort=dc.title,ASC"]).
Proof. repeat split. Qed.

(** C7. For every definition's [items] link and optional scope, the
    arguments of [getFirstItemFor] are [scope=<scope>] when a scope is given,
    then always [page=0] and [size=1]; the query string handed to
    [URLCombiner] ends with [page=0&size=1]; one items request for the
    combined URL is configured, and the payload of the result is the first
    element of the page the response holds for that URL. *)
Theorem getFirstItemFor_first_of_page
  (URLCombiner : list string → string) {Item : Type}
  (itemsCache : option string → option (ResponseCacheEntry Item))
  (scope : option string) (links : gmap string string) (itemsHref : string)
  (s : RequestService.t) :
  let args := BrowseService.getFirstItemFor_args scope in
  let url := URLCombiner [itemsHref; "?" +:+ join "&" args] in
  args = match scope with Some v => ["scope=" +:+ v] | None => [] end
         ++ ["page=0"; "size=1"] ∧
  Spec.hasParam "scope" args = hasValue scope ∧
  Spec.hasParam "page" args = true ∧
  Spec.hasParam "size" args = true ∧
  "?" +:+ join "&" args
    = "?" +:+ match scope with Some v => "scope=" +:+ v +:+ "&" | None => "" end
          +:+ "page=0&size=1" ∧
  BrowseService.getFirstItemFor_href URLCombiner scope itemsHref = url ∧
  BrowseService.getFirstItemFor URLCombiner itemsCache scope
    (observableOf (Some (<["items" := itemsHref]> links))) s
  = (mkObservable
       [mkRemoteData
          match itemsCache (Some url) with
          | None => Loading
          | Some (ErrorEntry _) => Failed
          | Some (SuccessEntry _) => Succeeded
          end
          match itemsCache (Some url) with
          | Some (SuccessEntry response) => head (response_payload response)
          | _ => None
          end]
       Completed,
     RequestService.mk (S (RequestService.generated s))
       (RequestService.configured s
        ++ [mkRestRequest BrowseItemsRequest
              (pretty (RequestService.generated s)) (Some url)])).
Proof.
  intros args url. subst args url.
  split; [by destruct scope|].
  split; [destruct scope; lazy; reflexivity|].
  split; [destruct scope; lazy; reflexivity|].
  split; [destruct scope; lazy; reflexivity|].
  split.
  { destruct scope as [v|]; [|reflexivity].
    unfold BrowseService.getFirstItemFor_args. simpl.
    change (tpl (Some v)) with v.
    unfold join. simpl. by rewrite !string_app_assoc. }
  split; [by destruct scope|].
  unfold BrowseService.getFirstItemFor, Operators.getBrowseItemsFor,
    Operators.requestFor, Operators.getFirstOccurrence, Operators.toRDPaginated,
    Operators.toRemoteData, hasValueOperator, observableOf, Rx.map,
    RequestService.bind, RequestService.ret.
  simpl. rewrite lookup_insert_eq. simpl.
  replace (BrowseService.getFirstItemFor_href URLCombiner scope itemsHref)
    with (URLCombiner [itemsHref; "?" +:+ join "&" (BrowseService.getFirstItemFor_args scope)])
    by (by destruct scope).
  destruct (itemsCache _) as [[response|msg]|]; simpl; try reflexivity.
  by rewrite list_fmap_id.
Qed.

(** C10. [getPrevBrowseItems] and [getNextBrowseItems] throw a [TypeError]
    and configure nothing when the remote data has no payload; when it has
    one, each configures exactly one items request, whose href is the
    payload's [prev] (respectively [next]) link as it is, absent or not. *)
Theorem getPrevNextBrowseItems_follow_link
  {Item : Type} (itemsCache : option string → option (ResponseCacheEntry Item))
  (st : RemoteDataState) (list : PaginatedList Item) (s : RequestService.t) :
  BrowseService.getPrevBrowseItems itemsCache (mkRemoteData st None) s
    = (inl TypeError, s) ∧
  BrowseService.getNextBrowseItems itemsCache (mkRemoteData st None) s
    = (inl TypeError, s) ∧
  (∃ rds,
     BrowseService.getPrevBrowseItems itemsCache (mkRemoteData st (Some list)) s
     = (inr rds,
        RequestService.mk (S (RequestService.generated s))
          (RequestService.configured s
           ++ [mkRestRequest BrowseItemsRequest
                 (pretty (RequestService.generated s)) (prev list)]))) ∧
  (∃ rds,
     BrowseService.getNextBrowseItems itemsCache (mkRemoteData st (Some list)) s
     = (inr rds,
        RequestService.mk (S (RequestService.generated s))
          (RequestService.configured s
           ++ [mkRestRequest BrowseItemsRequest
                 (pretty (RequestService.generated s)) (next list)]))).
Proof.
  split; [reflexivity|]. split; [reflexivity|].
  unfold BrowseService.getPrevBrowseItems, BrowseService.getNextBrowseItems,
    Operators.getBrowseItemsFor, Operators.requestFor, RequestService.bind,
    RequestService.ret.
  simpl. split; eexists; reflexivity.
Qed.

(** ** The selection state of the taxonomy page *)

Section taxonomy_facts.

Import BrowseByTaxonomyPage.

(** The invariant says that the filter values are the filter strings of the
    selected items, in the same order. *)
Lemma invariant_fmap c :
  invariant c ↔ filterValues c = filterString <$> selectedItems c.
Proof.
  unfold invariant. split.
  - intros [Hlen Hith]. apply list_eq_same_length with (length (filterValues c)).
    + by rewrite length_fmap.
    + done.
    + intros i x y _ Hx Hy.
      rewrite list_lookup_fmap in Hy.
      destruct (selectedItems c !! i) as [item|] eqn:Hitem; [|done].
      rewrite (Hith _ _ Hitem) in Hx. simpl in Hy. congruence.
  - intros ->. split; [by rewrite length_fmap|].
    intros i item Hitem. by rewrite list_lookup_fmap, Hitem.
Qed.

Lemma onSelect_invariant detail c : invariant c → invariant (onSelect detail c).
Proof.
  rewrite !invariant_fmap. unfold onSelect. simpl. intros ->.
  by rewrite fmap_app.
Qed.

(** On parallel lists, the removal keeps them parallel. *)
Lemma removeSelected_parallel detail (items : list VocabularyEntryDetail) :
  removeSelected detail items (filterString <$> items)
  = (filter (λ e, e ≠ detail) items,
     filterString <$> filter (λ e, e ≠ detail) items).
Proof.
  induction items as [|entry items IH]; [done|].
  rewrite fmap_cons. simpl. rewrite IH, filter_cons. simpl.
  destruct (decide (entry = detail)) as [->|Hne].
  - by rewrite decide_False by (intros H; by apply H).
  - by rewrite decide_True.
Qed.

Lemma onDeselect_invariant detail c : invariant c → invariant (onDeselect detail c).
Proof.
  rewrite !invariant_fmap. unfold onDeselect. intros ->.
  by rewrite removeSelected_parallel.
Qed.

(** What is left after the removal is left in its order. *)
Lemma removeSelected_sublist detail (items : list VocabularyEntryDetail) :
  ∀ filters : list string,
    sublist (removeSelected detail items filters).1 items ∧
    sublist (removeSelected detail items filters).2 filters.
Proof.
  induction items as [|entry items IH]; intros filters.
  - simpl. split; [constructor|done].
  - destruct filters as [|v filters].
    + split; [apply sublist_filter|constructor].
    + simpl. destruct (IH filters) as [Hitems Hfilters].
      destruct (decide (entry = detail)); simpl.
      * split; by apply sublist_cons.
      * split; by apply sublist_skip.
Qed.


End taxonomy_facts.

(** C4.  After any sequence of [onSelect] and [onDeselect] calls,
    [selectedItems] and [filterValues] have equal length and the i-th filter
    string is the value of the i-th selected item followed by [",equals"]:
    this holds from the created component, and from any state that
    satisfies it; a single call of either handler is the sequence of length
    one. *)
Theorem invariant_preserved (calls : list BrowseByTaxonomyPage.Call)
  (c : BrowseByTaxonomyPage.Component) :
  BrowseByTaxonomyPage.invariant c →
  BrowseByTaxonomyPage.invariant (BrowseByTaxonomyPage.run calls c) ∧
  BrowseByTaxonomyPage.invariant
    (BrowseByTaxonomyPage.run calls BrowseByTaxonomyPage.created).
Proof.
  assert (Hrun : ∀ c', BrowseByTaxonomyPage.invariant c' →
            BrowseByTaxonomyPage.invariant (BrowseByTaxonomyPage.run calls c')).
  { induction calls as [|e calls IH]; intros c' Hinv; [done|].
    simpl. apply IH. destruct e as [d|d]; simpl.
    - by apply onSelect_invariant.
    - by apply onDeselect_invariant. }
  intros Hinv. split; [by apply Hrun|].
  apply Hrun, invariant_fmap. reflexivity.
Qed.

(** The invariant on the calls of the component's test: two selections and
    the deselection of the first entry. *)
Lemma invariant_preserved_witness :
  let detail1 := BrowseByTaxonomyPage.mkDetail "Humanities" "HUMANITIES and RELIGION" in
  let detail2 := BrowseByTaxonomyPage.mkDetail "Technology" "TECHNOLOGY" in
  let calls := [BrowseByTaxonomyPage.Select detail1;
                BrowseByTaxonomyPage.Select detail2;
                BrowseByTaxonomyPage.Deselect detail1] in
  BrowseByTaxonomyPage.invariant BrowseByTaxonomyPage.created ∧
  BrowseByTaxonomyPage.invariant
    (BrowseByTaxonomyPage.run calls BrowseByTaxonomyPage.created).
Proof.
  intros detail1 detail2 calls.
  assert (Hinv : BrowseByTaxonomyPage.invariant BrowseByTaxonomyPage.created)
    by (apply invariant_fmap; reflexivity).
  split; [exact Hinv|].
  exact (proj1 (invariant_preserved calls BrowseByTaxonomyPage.created Hinv)).
Defined.

(** C5. From the created component, selecting an entry [a] and then an entry
    [b] of another value gives the filter values [["<a>,equals";
    "<b>,equals"]] in that order; deselecting [a] then leaves
    [["<b>,equals"]] and the selected item [b].  In every state,
    [onDeselect] leaves the remaining selected items and filter values in
    their relative order. *)
Theorem select_two_then_deselect_first (a b : BrowseByTaxonomyPage.VocabularyEntryDetail) :
  BrowseByTaxonomyPage.value a ≠ BrowseByTaxonomyPage.value b →
  let selected :=
    BrowseByTaxonomyPage.run
      [BrowseByTaxonomyPage.Select a; BrowseByTaxonomyPage.Select b]
      BrowseByTaxonomyPage.created in
  BrowseByTaxonomyPage.filterValues selected
    = [BrowseByTaxonomyPage.value a +:+ ",equals";
       BrowseByTaxonomyPage.value b +:+ ",equals"] ∧
  BrowseByTaxonomyPage.selectedItems selected = [a; b] ∧
  BrowseByTaxonomyPage.filterValues (BrowseByTaxonomyPage.onDeselect a selected)
    = [BrowseByTaxonomyPage.value b +:+ ",equals"] ∧
  BrowseByTaxonomyPage.selectedItems (BrowseByTaxonomyPage.onDeselect a selected)
    = [b] ∧
  ∀ detail c,
    sublist (BrowseByTaxonomyPage.filterValues (BrowseByTaxonomyPage.onDeselect detail c))
            (BrowseByTaxonomyPage.filterValues c) ∧
    sublist (BrowseByTaxonomyPage.selectedItems (BrowseByTaxonomyPage.onDeselect detail c))
            (BrowseByTaxonomyPage.selectedItems c).
Proof.
  intros Hab selected. subst selected.
  assert (Hne : b ≠ a) by congruence.
  split; [reflexivity|]. split; [reflexivity|].
  split; [|split].
  - unfold BrowseByTaxonomyPage.onDeselect. simpl.
    rewrite decide_True by done. by rewrite decide_False by done.
  - unfold BrowseByTaxonomyPage.onDeselect. simpl.
    rewrite decide_True by done. by rewrite decide_False by done.
  - intros detail c. unfold BrowseByTaxonomyPage.onDeselect. simpl.
    destruct (removeSelected_sublist detail
                (BrowseByTaxonomyPage.selectedItems c)
                (BrowseByTaxonomyPage.filterValues c)) as [Hitems Hfilters].
    by split.
Qed.

(** The values of the component's test. *)
Lemma select_two_then_deselect_first_witness :
  let detail1 := BrowseByTaxonomyPage.mkDetail "" "HUMANITIES and RELIGION" in
  let detail2 := BrowseByTaxonomyPage.mkDetail "" "TECHNOLOGY" in
  BrowseByTaxonomyPage.value detail1 ≠ BrowseByTaxonomyPage.value detail2 ∧
  BrowseByTaxonomyPage.filterValues
    (BrowseByTaxonomyPage.run
       [BrowseByTaxonomyPage.Select detail1; BrowseByTaxonomyPage.Select detail2]
       BrowseByTaxonomyPage.created)
    = ["HUMANITIES and RELIGION,equals"; "TECHNOLOGY,equals"] ∧
  BrowseByTaxonomyPage.filterValues
    (BrowseByTaxonomyPage.run
       [BrowseByTaxonomyPage.Select detail1; BrowseByTaxonomyPage.Select detail2;
        BrowseByTaxonomyPage.Deselect detail1]
       BrowseByTaxonomyPage.created)
    = ["TECHNOLOGY,equals"].
Proof.
  intros detail1 detail2.
  assert (Hne : BrowseByTaxonomyPage.value detail1 ≠ BrowseByTaxonomyPage.value detail2)
    by (vm_compute; discriminate).
  pose proof (select_two_then_deselect_first detail1 detail2 Hne)
    as (Hboth & _ & Hrest & _).
  split; [exact Hne|]. split; [exact Hboth|exact Hrest].
Defined.



(** ** More on the dotted-key expansion *)

Section wildcard_facts.

Import BrowseService Notions.

(** Splitting at a separator splits the two sides. *)
Lemma split_app_sep sep (p rest : string) :
  split sep (p +:+ String sep rest) = split sep p ++ split sep rest.
Proof.
  induction p as [|c p IH].
  - rewrite string_app_nil_l. simpl. by rewrite Ascii.eqb_refl.
  - rewrite string_app_cons. simpl. rewrite IH.
    destruct (Ascii.eqb c sep); [done|].
    pose proof (split_not_nil sep p). by destruct (split sep p).
Qed.

Lemma length_split sep s : length (split sep s) = S (countChar sep s).
Proof.
  induction s as [|c s IH]; [done|]. simpl.
  destruct (Ascii.eqb c sep); simpl; [by rewrite IH|].
  pose proof (split_not_nil sep s).
  destruct (split sep s); simpl in *; [done|lia].
Qed.

(** A prefix that ends before a dot is the join of the first parts. *)
Lemma prefix_is_join (p rest : string) :
  let keyParts := split "."%char (p +:+ "." +:+ rest) in
  let j := length (split "."%char p) in
  0 < j < length keyParts ∧ join "." (take j keyParts) = p.
Proof.
  intros keyParts j. subst keyParts j.
  change (p +:+ "." +:+ rest) with (p +:+ String "."%char rest).
  rewrite split_app_sep, length_app.
  pose proof (length_split_pos "."%char p).
  pose proof (length_split_pos "."%char rest).
  split; [lia|].
  rewrite take_app_length. apply (join_split "."%char).
Qed.

End wildcard_facts.

(** X1. What the search keys of a key are: [*], the key itself, and
    [p.*] for every way of writing the key as [p.rest]; nothing else. *)
Theorem toSearchKeyArray_members (key k : string) :
  k ∈ BrowseService.toSearchKeyArray key ↔
  k = "*" ∨ k = key ∨ ∃ p rest, k = p +:+ ".*" ∧ key = p +:+ "." +:+ rest.
Proof.
  rewrite toSearchKeyArray_elements.
  rewrite !elem_of_app, list_elem_of_fmap, !list_elem_of_singleton.
  split.
  - intros [->|[(j & -> & Hj)| ->]]; [by left| |by right; left].
    right. right. apply elem_of_seq in Hj.
    exists (join "." (take j (split "."%char key))),
           (join "." (drop j (split "."%char key))).
    split.
    + apply wildcard_of_prefix, take_not_nil; [lia|apply split_not_nil].
    + apply prefix_of_key. lia.
  - intros [->|[->|(p & rest & -> & ->)]]; [by left|by right; right|].
    right. left.
    destruct (prefix_is_join p rest) as [Hj Hp].
    exists (length (split "."%char p)). split.
    + rewrite wildcard_of_prefix, Hp; [done|].
      apply take_not_nil; [lia|apply split_not_nil].
    + apply elem_of_seq. lia.
Qed.

(** X2. A key with [d] dots has [d + 2] search keys; a key without a dot
    has the two search keys [*] and itself. *)
Theorem toSearchKeyArray_length (key : string) :
  length (BrowseService.toSearchKeyArray key)
    = Notions.countChar "."%char key + 2 ∧
  (Notions.countChar "."%char key = 0 ↔
   BrowseService.toSearchKeyArray key = ["*"; key]).
Proof.
  rewrite toSearchKeyArray_elements.
  rewrite !length_app, length_fmap, length_seq, length_split. simpl.
  split; [lia|].
  replace (S (Notions.countChar "."%char key) - 1)
    with (Notions.countChar "."%char key) by lia.
  destruct (Notions.countChar "."%char key) as [|d]; simpl; [done|].
  split; [done|]. intros Heq. apply (f_equal length) in Heq.
  simpl in Heq. rewrite length_app, length_fmap, length_seq in Heq.
  simpl in Heq. lia.
Qed.

(** ** More on [getBrowseURLFor] *)

Section url_stream_facts.

Import BrowseService Spec Notions.

Lemma distinct_go_noRepeat `{EqDecision A} (l : list A) : ∀ prev,
  noRepeat (prev :: distinct_go prev l).
Proof.
  induction l as [|a l IH]; intros prev; simpl; [done|].
  destruct (decide (a = prev)) as [->|Hne]; [apply IH|].
  split; [congruence|apply IH].
Qed.

Lemma distinctUntilChanged_noRepeat `{EqDecision A} (o : Observable A) :
  noRepeat (emitted (distinctUntilChanged o)).
Proof.
  unfold distinctUntilChanged. destruct (emitted o) as [|a l] eqn:Ho.
  - by rewrite Ho.
  - apply distinct_go_noRepeat.
Qed.

(** A throwing [map] whose callback never throws ends as its source. *)
Lemma tryMap_go_all_return {A B} (f : A → Thrown + B) l e :
  Forall (λ a, ∃ b, f a = inr b) l → (tryMap_go f l e).2 = e.
Proof.
  induction 1 as [|a l [b Hb] _ IH]; simpl; [done|]. by rewrite Hb.
Qed.

(** A throwing [map] whose callback throws at some value ends with what
    was thrown, when that is all the callback ever throws. *)
Lemma tryMap_go_some_throws {A B} (f : A → Thrown + B) l e err :
  (∀ a err', f a = inl err' → err' = err) →
  Exists (λ a, ∃ err', f a = inl err') l →
  (tryMap_go f l e).2 = Errored err.
Proof.
  intros Honly. induction l as [|a l IH]; intros Hex; [by inversion Hex|].
  simpl. destruct (f a) as [err'|b] eqn:Hfa; simpl.
  - by rewrite (Honly _ _ Hfa).
  - apply IH. inversion Hex as [? ? [err' Herr]|]; [congruence|done].
Qed.

Lemma linkOrThrow_only_throws metadatumKey linkPath def err :
  linkOrThrow metadatumKey linkPath def = inl err →
  err = notConfigured metadatumKey linkPath.
Proof.
  unfold linkOrThrow.
  destruct (isEmpty def || _ || _); [by intros [= <-]|done].
Qed.

(** For a key that is not empty, the two callbacks return a link exactly
    for the payloads that can be resolved. *)
Lemma linkOrThrow_resolvable metadatumKey linkPath defs :
  metadatumKey ≠ "" →
  (∃ v, linkOrThrow metadatumKey linkPath
          (findDefinition (toSearchKeyArray metadatumKey) defs) = inr v) ↔
  resolvable (toSearchKeyArray metadatumKey) linkPath defs.
Proof.
  intros Hkey.
  assert (Hska : ∀ k, k ∈ toSearchKeyArray metadatumKey → k ≠ "")
    by (intros k; by apply toSearchKeyArray_not_empty).
  unfold resolvable.
  destruct (findDefinition _ defs) as [d|] eqn:Hfind.
  - destruct (hasLink_cases d linkPath) as [[l Hl]|Hno].
    + rewrite (linkOrThrow_link _ _ _ _ Hl). split; [|by eexists].
      intros _. exists d, l. split; [by apply findDefinition_first|done].
    + rewrite (linkOrThrow_no_link _ _ _ Hno). split; [by intros [? ?]|].
      intros (d' & l & Hd' & Hl). apply findDefinition_first in Hd'; [|done].
      destruct Hno. exists l. congruence.
  - rewrite linkOrThrow_undefined. split; [by intros [? ?]|].
    intros (d' & l & Hd' & _). apply findDefinition_first in Hd'; [|done].
    congruence.
Qed.

End url_stream_facts.

(** X3. A definition that lists the wildcard [p.*] serves every key
    [p.rest]: when no earlier definition matches the key and the definition
    has a non-empty link for the link path, [getBrowseURLFor] emits
    [undefined] and then that link, whatever definitions follow. *)
Theorem getBrowseURLFor_wildcard (p rest linkPath l : string)
  (keys : list string) (links : gmap string string)
  (before after : list BrowseDefinition) :
  Forall (λ d, ¬ Spec.intersects
                   (BrowseService.toSearchKeyArray (p +:+ "." +:+ rest)) d)
         before →
  p +:+ ".*" ∈ keys →
  links !! linkPath = Some l →
  l ≠ "" →
  BrowseService.getBrowseURLFor
    (observableOf (before ++ mkBrowseDefinition keys (Some links) :: after))
    (p +:+ "." +:+ rest) linkPath
  = mkObservable [None; Some l] Completed.
Proof.
  intros Hbefore Hkey Hl Hne.
  set (key := p +:+ "." +:+ rest).
  assert (Hnonempty : key ≠ "").
  { intros [_ Hdot]%string_app_empty. done. }
  assert (Hska : ∀ k, k ∈ BrowseService.toSearchKeyArray key → k ≠ "")
    by (intros k; by apply toSearchKeyArray_not_empty).
  rewrite getBrowseURLFor_single.
  assert (Hfind : BrowseService.findDefinition
                    (BrowseService.toSearchKeyArray key)
                    (before ++ mkBrowseDefinition keys (Some links) :: after)
                  = Some (mkBrowseDefinition keys (Some links))).
  { apply findDefinition_first; [done|].
    exists before, after. split; [done|]. split; [done|].
    exists (p +:+ ".*"). split; [done|].
    apply toSearchKeyArray_members. right. right. by exists p, rest. }
  rewrite Hfind.
  rewrite (linkOrThrow_link _ _ _ l); [done|]. by split.
Qed.

(** A definition of authors serving [dc.contributor.author], after one
    of dates. *)
Lemma getBrowseURLFor_wildcard_witness :
  BrowseService.getBrowseURLFor
    (observableOf
       ([mkBrowseDefinition ["dc.date.issued"]
           (Some {["items" := "/browses/dateissued/items"]})]
        ++ mkBrowseDefinition ["dc.contributor.*"; "dc.creator"]
             (Some {["items" := "/browses/author/items"]})
        :: [mkBrowseDefinition ["*"] (Some {["items" := "/browses/any/items"]})]))
    ("dc.contributor" +:+ "." +:+ "author") "items"
  = mkObservable [None; Some "/browses/author/items"] Completed.
Proof.
  apply (getBrowseURLFor_wildcard "dc.contributor" "author" "items"
           "/browses/author/items").
  - apply Forall_cons. split; [|constructor].
    intros (k & Hk & Hska). apply list_elem_of_singleton in Hk as ->.
    revert Hska. vm_compute. intros Hska.
    repeat (apply elem_of_cons in Hska as [Hska|Hska]; [discriminate|]).
    by apply elem_of_nil in Hska.
  - left.
  - vm_compute. reflexivity.
  - discriminate.
Defined.

(** X4. Whatever the source of definitions delivers, a subscriber of
    [getBrowseURLFor] never receives the same value twice in a row. *)
Theorem getBrowseURLFor_no_repeat
  (browseDefinitions : Observable (list BrowseDefinition))
  (metadatumKey linkPath : string) :
  Notions.noRepeat
    (emitted (BrowseService.getBrowseURLFor browseDefinitions metadatumKey linkPath)).
Proof. apply distinctUntilChanged_noRepeat. Qed.

(** X5. For a key that is not empty: when every payload the source
    delivers can be resolved to a link, the stream of [getBrowseURLFor]
    ends as the source ends; when some payload cannot, it ends with the
    "isn't configured" error. *)
Theorem getBrowseURLFor_ending
  (browseDefinitions : Observable (list BrowseDefinition))
  (metadatumKey linkPath : string) :
  metadatumKey ≠ "" →
  let searchKeyArray := BrowseService.toSearchKeyArray metadatumKey in
  let out := BrowseService.getBrowseURLFor browseDefinitions metadatumKey linkPath in
  (Forall (Notions.resolvable searchKeyArray linkPath) (emitted browseDefinitions) →
   ending out = ending browseDefinitions) ∧
  (Exists (λ defs, ¬ Notions.resolvable searchKeyArray linkPath defs)
          (emitted browseDefinitions) →
   ending out = Errored (BrowseService.notConfigured metadatumKey linkPath)).
Proof.
  intros Hkey searchKeyArray out. subst out.
  unfold BrowseService.getBrowseURLFor, distinctUntilChanged, startWith,
    tryMap, Rx.map. simpl. fold searchKeyArray.
  split.
  - intros Hall. apply tryMap_go_all_return.
    apply Forall_fmap. eapply Forall_impl; [exact Hall|].
    intros defs Hdefs. simpl. by apply linkOrThrow_resolvable.
  - intros Hex. apply tryMap_go_some_throws.
    + intros def err. apply linkOrThrow_only_throws.
    + apply Exists_fmap. eapply Exists_impl; [exact Hex|].
      intros defs Hno. simpl.
      destruct (BrowseService.linkOrThrow metadatumKey linkPath
                  (BrowseService.findDefinition searchKeyArray defs))
        as [err|v] eqn:Hr; [by exists err|].
      destruct Hno. apply linkOrThrow_resolvable; [done|]. by exists v.
Qed.

(** A source that delivers a payload with a definition for the key and then
    an empty payload: the stream ends with the error. *)
Lemma getBrowseURLFor_ending_witness :
  "dc.title" ≠ "" ∧
  ending
    (BrowseService.getBrowseURLFor
       (mkObservable
          [[mkBrowseDefinition ["dc.title"] (Some {["items" := "/browses/title/items"]})];
           []]
          Pending)
       "dc.title" "items")
  = Errored (BrowseService.notConfigured "dc.title" "items").
Proof.
  assert (Hkey : "dc.title" ≠ "") by discriminate.
  split; [exact Hkey|].
  apply (getBrowseURLFor_ending
           (mkObservable
              [[mkBrowseDefinition ["dc.title"]
                  (Some {["items" := "/browses/title/items"]})];
               []]
              Pending)
           "dc.title" "items" Hkey).
  simpl. apply Exists_cons_tl, Exists_cons_hd.
  intros (def & l & (before & after & Hdefs & _) & _).
  by destruct before.
Defined.

(** ** More on the query arguments *)

Section query_order_facts.

Import BrowseService Notions.

Lemma hrefs_of_first_page_of_one URLCombiner definition (href : string) :
  getFirstItemFor_href URLCombiner None href
  = getBrowseItemsFor_href URLCombiner None
      (mkOptions definition
         (Some (mkPagination (mkSafeInteger 1 eq_refl) (mkSafeInteger 1 eq_refl)))
         None None None) href.
Proof. reflexivity. Qed.

End query_order_facts.

Ltac sublist_greedy :=
  repeat first [ apply sublist_nil | apply sublist_skip | apply sublist_cons ].

(** X6. The query arguments of [getBrowseEntriesFor] and [getBrowseItemsFor]
    always come in the order scope, sort, page, size, startsWith,
    filterValue, each at most once, whatever the options are. *)
Theorem query_arguments_in_order (filterValue : option string)
  (options : BrowseEntrySearchOptions) :
  sublist (Notions.paramName <$> BrowseService.getBrowseEntriesFor_args options)
          ["scope"; "sort"; "page"; "size"; "startsWith"] ∧
  sublist (Notions.paramName
             <$> BrowseService.getBrowseItemsFor_args filterValue options)
          ["scope"; "sort"; "page"; "size"; "startsWith"; "filterValue"].
Proof.
  destruct options as [definition [p|] [s|] [[|c prefix]|] sc];
    destruct filterValue as [[|c' v]|];
    split; lazy [Notions.paramName BrowseService.getBrowseEntriesFor_args
                 BrowseService.getBrowseItemsFor_args
                 Model.sort Model.pagination Model.startsWith Model.scope
                 isNotEmpty isEmpty empty_option empty_string empty_SortOptions
                 empty_Pagination negb Nat.eqb String.length
                 fmap list_fmap app String.append Ascii.eqb Bool.eqb];
    sublist_greedy.
Qed.

(** Without a scope, [getFirstItemFor] is [getBrowseItemsFor] for the
    first page of size one and no filter value, followed by taking the
    first element of each page: the same requests are configured and the
    same remote data reach [getFirstOccurrence]. *)
Remark getFirstItemFor_is_first_page_of_one
  (URLCombiner : list string → string) {Item : Type}
  (itemsCache : option string → option (ResponseCacheEntry Item))
  (definition : string) (links : Observable (option (gmap string string)))
  (s : RequestService.t) :
  BrowseService.getFirstItemFor URLCombiner itemsCache None links s
  = let r := BrowseService.getBrowseItemsFor URLCombiner itemsCache None
               (mkOptions definition
         (Some (mkPagination (mkSafeInteger 1 eq_refl) (mkSafeInteger 1 eq_refl)))
         None None None)
               links s in
    (Operators.getFirstOccurrence r.1, r.2).
Proof. reflexivity. Qed.

(** ** The requests the request pipelines configure *)

Section request_facts.

Import Notions.

(** Creating and configuring the request of one href, then the others. *)
Lemma mapM_configure_cons (k : RequestKind) h (hrefs : list (option string)) s :
  let f := λ h,
    let* id := RequestService.generateRequestId in
    let request := mkRestRequest k id h in
    let* _ := RequestService.configure request in
    RequestService.ret request in
  let request := mkRestRequest k (pretty (RequestService.generated s)) h in
  let r := RequestService.mapM f hrefs
             (RequestService.mk (S (RequestService.generated s))
                (RequestService.configured s ++ [request])) in
  RequestService.mapM f (h :: hrefs) s = (request :: r.1, r.2).
Proof. reflexivity. Qed.

(** Creating and configuring one request per href. *)
Lemma mapM_configure (k : RequestKind) (hrefs : list (option string)) : ∀ s,
  let r := RequestService.mapM (λ h,
             let* id := RequestService.generateRequestId in
             let request := mkRestRequest k id h in
             let* _ := RequestService.configure request in
             RequestService.ret request) hrefs s in
  href <$> r.1 = hrefs ∧
  Forall (λ q, kind q = k) r.1 ∧
  RequestService.configured r.2 = RequestService.configured s ++ r.1 ∧
  RequestService.generated r.2 = RequestService.generated s + length hrefs.
Proof.
  induction hrefs as [|h hrefs IH]; intros s.
  - simpl. unfold RequestService.ret. simpl. by rewrite app_nil_r, Nat.add_0_r.
  - cbv zeta. rewrite mapM_configure_cons. cbv zeta.
    set (s1 := RequestService.mk _ _).
    destruct (IH s1) as (Hhrefs & Hkinds & Hconf & Hgen).
    cbn [fst snd]. repeat split.
    + rewrite fmap_cons. f_equal. exact Hhrefs.
    + constructor; [done|exact Hkinds].
    + etrans; [exact Hconf|]. subst s1. simpl. by rewrite <- app_assoc.
    + etrans; [exact Hgen|]. subst s1. simpl. lia.
Qed.

(** One subscription of the request pipeline creates the requests of the
    hrefs it is given. *)
Lemma requests_of_hrefs (k : RequestKind) (hrefs : list (option string)) e s :
  href <$> emitted (Operators.requests k (mkObservable hrefs e) s).1 = hrefs.
Proof.
  unfold Operators.requests, RequestService.bind, RequestService.ret. simpl.
  by destruct (mapM_configure k hrefs s) as (Hhrefs & _).
Qed.

Lemma hasValue_links_named name (links : list (option (gmap string string))) :
  omap (λ x, x) ((λ l : gmap string string, l !! name) <$> omap (λ x, x) links)
  = linksNamed name links.
Proof.
  unfold linksNamed. induction links as [|[l|] links IH]; simpl; [done| |exact IH].
  destruct (l !! name); simpl; [f_equal|]; exact IH.
Qed.

End request_facts.

(** X7. Each subscription to the request pipeline of the operators
    [getBrowseEntriesFor] and [getBrowseItemsFor] keeps the requests
    configured before and configures after them one request per href the
    source delivers, in the order of delivery, each of the operator's kind
    and with that href; the created requests are what the pipeline emits,
    and it ends as the source ends. *)
Theorem requests_one_request_per_href
  (k : RequestKind) (source : Observable (option string)) (s : RequestService.t) :
  let r := Operators.requests k source s in
  RequestService.configured r.2 = RequestService.configured s ++ emitted r.1 ∧
  href <$> emitted r.1 = emitted source ∧
  Forall (λ q, kind q = k) (emitted r.1) ∧
  RequestService.generated r.2
    = RequestService.generated s + length (emitted source) ∧
  ending r.1 = ending source.
Proof.
  intros r. subst r.
  unfold Operators.requests, RequestService.bind, RequestService.ret. simpl.
  destruct (mapM_configure k (emitted source) s) as (Hhrefs & Hkinds & Hconf & Hgen).
  simpl in *. by repeat split.
Qed.

(** X8. Whatever [_links] objects are delivered, the hrefs that
    [getBrowseEntriesFor] hands to its operator are the [entries] links of
    the objects that have one, those of [getBrowseItemsFor] and
    [getFirstItemFor] the [items] links, in order and passed through the
    method's query-argument callback; an [undefined] object or one without
    the link is skipped, and the stream ends as the stream of objects does.
    Each subscription to the request pipeline behind the method configures
    one request of the method's kind per such href. *)
Theorem methods_hrefs_of_named_links
  (URLCombiner : list string → string) {Item BrowseEntry : Type}
  (itemsCache : option string → option (ResponseCacheEntry Item))
  (entriesCache : option string → option (ResponseCacheEntry BrowseEntry))
  (filterValue scope : option string) (options : BrowseEntrySearchOptions)
  (links : Observable (option (gmap string string))) (s : RequestService.t) :
  let entries := BrowseHrefs.getBrowseEntriesFor URLCombiner options links in
  let items := BrowseHrefs.getBrowseItemsFor URLCombiner filterValue options links in
  let first := BrowseHrefs.getFirstItemFor URLCombiner scope links in
  (BrowseService.getBrowseEntriesFor URLCombiner entriesCache options links
     = Operators.getBrowseEntriesFor entriesCache (Rx.map Some entries) ∧
   BrowseService.getBrowseItemsFor URLCombiner itemsCache filterValue options links
     = Operators.getBrowseItemsFor itemsCache (Rx.map Some items) ∧
   BrowseService.getFirstItemFor URLCombiner itemsCache scope links
     = RequestService.bind
         (Operators.getBrowseItemsFor itemsCache (Rx.map Some first))
         (λ rds, RequestService.ret (Operators.getFirstOccurrence rds))) ∧
  (emitted entries
     = BrowseService.getBrowseEntriesFor_href URLCombiner options
         <$> Notions.linksNamed "entries" (emitted links) ∧
   emitted items
     = BrowseService.getBrowseItemsFor_href URLCombiner filterValue options
         <$> Notions.linksNamed "items" (emitted links) ∧
   emitted first
     = BrowseService.getFirstItemFor_href URLCombiner scope
         <$> Notions.linksNamed "items" (emitted links)) ∧
  (ending entries = ending links ∧ ending items = ending links ∧
   ending first = ending links) ∧
  (href <$> emitted (Operators.requests BrowseEntriesRequest (Rx.map Some entries) s).1
     = Some <$> emitted entries ∧
   href <$> emitted (Operators.requests BrowseItemsRequest (Rx.map Some items) s).1
     = Some <$> emitted items ∧
   href <$> emitted (Operators.requests BrowseItemsRequest (Rx.map Some first) s).1
     = Some <$> emitted first).
Proof.
  intros entries items first. subst entries items first.
  split; [by repeat split|].
  unfold BrowseHrefs.getBrowseEntriesFor, BrowseHrefs.getBrowseItemsFor,
    BrowseHrefs.getFirstItemFor, hasValueOperator, Rx.map.
  simpl. rewrite !hasValue_links_named.
  split; [by repeat split|]. split; [by repeat split|].
  repeat split.
  - exact (requests_of_hrefs BrowseEntriesRequest _ (ending links) s).
  - exact (requests_of_hrefs BrowseItemsRequest _ (ending links) s).
  - exact (requests_of_hrefs BrowseItemsRequest _ (ending links) s).
Qed.

(** ** The request for the browse endpoint *)

Section endpoint_facts.

Import Notions.

Lemma distinctUntilChanged_Forall `{EqDecision A} (P : A → Prop) (o : Observable A) :
  Forall P (emitted o) → Forall P (emitted (distinctUntilChanged o)).
Proof.
  unfold distinctUntilChanged. destruct (emitted o) as [|a l] eqn:Ho.
  - by rewrite Ho.
  - intros [Ha Hl]%Forall_cons. simpl. constructor; [done|].
    by apply distinct_go_Forall.
Qed.

Lemma distinctUntilChanged_ending `{EqDecision A} (o : Observable A) :
  ending (distinctUntilChanged o) = ending o.
Proof. unfold distinctUntilChanged. by destruct (emitted o). Qed.

Lemma isNotEmptyOperator_Forall `{Emptiness A} (o : Observable A) :
  Forall (λ a, isNotEmpty a = true) (emitted (BrowseEndpoint.isNotEmptyOperator o)).
Proof.
  unfold BrowseEndpoint.isNotEmptyOperator. simpl.
  apply Forall_forall. intros a Ha.
  apply list_elem_of_In, filter_In in Ha. tauto.
Qed.

End endpoint_facts.

(** X10. Whatever endpoint URLs are delivered, the requests that
    [getBrowseDefinitions] creates are configured after those configured
    before, each is a browse endpoint request with a non-empty href, no two
    in a row have the same href, and the stream of requests ends as the
    stream of endpoint URLs does. *)
Theorem endpoint_requests_distinct (endpoint : Observable (option string))
  (s : RequestService.t) :
  let r := BrowseEndpoint.request endpoint s in
  RequestService.configured r.2 = RequestService.configured s ++ emitted r.1 ∧
  Forall (λ q, kind q = BrowseEndpointRequest ∧ isNotEmpty (href q) = true)
         (emitted r.1) ∧
  Notions.noRepeat (href <$> emitted r.1) ∧
  ending r.1 = ending endpoint.
Proof.
  intros r. subst r.
  unfold BrowseEndpoint.request, RequestService.bind, RequestService.ret. simpl.
  set (urls := distinctUntilChanged (BrowseEndpoint.isNotEmptyOperator endpoint)).
  destruct (mapM_configure BrowseEndpointRequest (emitted urls) s)
    as (Hhrefs & Hkinds & Hconf & _).
  simpl in *. split; [exact Hconf|]. split; [|split].
  - assert (Hne : Forall (λ h : option string, isNotEmpty h = true) (emitted urls))
      by apply distinctUntilChanged_Forall, isNotEmptyOperator_Forall.
    rewrite <- Hhrefs in Hne.
    rewrite Forall_forall in Hkinds. rewrite Forall_forall in Hne.
    apply Forall_forall. intros q Hq. split; [by apply Hkinds|].
    apply Hne, list_elem_of_fmap. by exists q.
  - pose proof (distinctUntilChanged_noRepeat
                  (BrowseEndpoint.isNotEmptyOperator endpoint)) as Hdistinct.
    fold urls in Hdistinct. rewrite <- Hhrefs in Hdistinct. exact Hdistinct.
  - subst urls. by rewrite distinctUntilChanged_ending.
Qed.
